(** * ServoAI_centerbox2: the scan / track control loop of the pan servo

    A shallow embedding of [ServoAI_centerbox2.py].  The Python module keeps
    its state in two globals ([servo_angle], [servo_direction]), in two
    variables of [run] shared with the detector callback
    ([detection_result_list], [detection_count]) and in the GPIO / PWM
    peripherals.  All of it is gathered in one record, [World], and every
    Python function becomes a computation in a small state monad over it.

    Camera capture, drawing ([visualize], [show_fps], [cv2.imshow]) and
    argument parsing touch none of these variables and are left out. *)

From Stdlib Require Import ZArith String List Bool Lia.
Import ListNotations.
Local Open Scope string_scope.
Local Open Scope list_scope.
Local Open Scope Z_scope.

(** ** Detection results, as MediaPipe delivers them *)

Module BoundingBox.

Record t : Type := mk
  { origin_x : Z; origin_y : Z; width : Z; height : Z }.

End BoundingBox.

Record Detection : Type := mkDetection
  { bounding_box : BoundingBox.t }.

Record ObjectDetectorResult : Type := mkResult
  { detections : list Detection }.

(** ** The state of the program and of the board *)

Record World : Type := mkWorld
  { servo_angle : Z                              (* global, line 39 *)
  ; servo_direction : Z                          (* global, line 40 *)
  ; detection_result_list : list ObjectDetectorResult   (* line 100 *)
  ; detection_count : Z                          (* line 101 *)
  ; servo_level : bool                           (* output level of pin 18 *)
  ; led_level : bool                             (* output level of pin 15 *)
  ; duty_cycle : Z                               (* PWM duty, in 1/18 of a percent *)
  ; driven : list Z                              (* angles the servo was held at *)
  ; stdout : list string }.

Definition servo_pin : Z := 18.
Definition led_pin : Z := 15.

(** The state at the top of [run]: the module-level initialisation has run
    ([GPIO.output(led_pin, GPIO.LOW)], [pwm.start(0)]), the mailbox is empty
    and no batch has been counted. *)
Definition initial_world : World :=
  {| servo_angle := 0; servo_direction := 1;
     detection_result_list := []; detection_count := 0;
     servo_level := false; led_level := false; duty_cycle := 0;
     driven := []; stdout := [] |}.

(** ** A state monad over [World] *)

Definition Prog (A : Type) : Type := World -> A * World.

Definition ret {A} (a : A) : Prog A := fun w => (a, w).

Definition bind {A B} (c : Prog A) (k : A -> Prog B) : Prog B :=
  fun w => let (a, w') := c w in k a w'.

Definition gets {A} (f : World -> A) : Prog A := fun w => (f w, w).

Definition modify (f : World -> World) : Prog unit := fun w => (tt, f w).

Definition exec {A} (c : Prog A) (w : World) : World := snd (c w).

Declare Scope prog_scope.
Delimit Scope prog_scope with prog.
Notation "x <- c ;; k" := (bind c (fun x => k))
  (at level 61, c at next level, right associativity) : prog_scope.
Notation "c ;; k" := (bind c (fun _ => k))
  (at level 61, right associativity) : prog_scope.
Local Open Scope prog_scope.

(** [for x in xs: body x] *)
Fixpoint for_each {A} (xs : list A) (body : A -> Prog unit) : Prog unit :=
  match xs with
  | [] => ret tt
  | x :: xs' => body x ;; for_each xs' body
  end.

(** ** Field updates *)

Definition set_servo_angle (a : Z) (w : World) : World :=
  {| servo_angle := a; servo_direction := servo_direction w;
     detection_result_list := detection_result_list w;
     detection_count := detection_count w;
     servo_level := servo_level w; led_level := led_level w;
     duty_cycle := duty_cycle w; driven := driven w; stdout := stdout w |}.

Definition set_servo_direction (d : Z) (w : World) : World :=
  {| servo_angle := servo_angle w; servo_direction := d;
     detection_result_list := detection_result_list w;
     detection_count := detection_count w;
     servo_level := servo_level w; led_level := led_level w;
     duty_cycle := duty_cycle w; driven := driven w; stdout := stdout w |}.

Definition set_detection_result_list (l : list ObjectDetectorResult)
  (w : World) : World :=
  {| servo_angle := servo_angle w; servo_direction := servo_direction w;
     detection_result_list := l;
     detection_count := detection_count w;
     servo_level := servo_level w; led_level := led_level w;
     duty_cycle := duty_cycle w; driven := driven w; stdout := stdout w |}.

Definition set_detection_count (n : Z) (w : World) : World :=
  {| servo_angle := servo_angle w; servo_direction := servo_direction w;
     detection_result_list := detection_result_list w;
     detection_count := n;
     servo_level := servo_level w; led_level := led_level w;
     duty_cycle := duty_cycle w; driven := driven w; stdout := stdout w |}.

Definition set_servo_level (b : bool) (w : World) : World :=
  {| servo_angle := servo_angle w; servo_direction := servo_direction w;
     detection_result_list := detection_result_list w;
     detection_count := detection_count w;
     servo_level := b; led_level := led_level w;
     duty_cycle := duty_cycle w; driven := driven w; stdout := stdout w |}.

Definition set_led_level (b : bool) (w : World) : World :=
  {| servo_angle := servo_angle w; servo_direction := servo_direction w;
     detection_result_list := detection_result_list w;
     detection_count := detection_count w;
     servo_level := servo_level w; led_level := b;
     duty_cycle := duty_cycle w; driven := driven w; stdout := stdout w |}.

Definition set_duty_cycle (d : Z) (w : World) : World :=
  {| servo_angle := servo_angle w; servo_direction := servo_direction w;
     detection_result_list := detection_result_list w;
     detection_count := detection_count w;
     servo_level := servo_level w; led_level := led_level w;
     duty_cycle := d; driven := driven w; stdout := stdout w |}.

Definition set_driven (l : list Z) (w : World) : World :=
  {| servo_angle := servo_angle w; servo_direction := servo_direction w;
     detection_result_list := detection_result_list w;
     detection_count := detection_count w;
     servo_level := servo_level w; led_level := led_level w;
     duty_cycle := duty_cycle w; driven := l; stdout := stdout w |}.

Definition set_stdout (l : list string) (w : World) : World :=
  {| servo_angle := servo_angle w; servo_direction := servo_direction w;
     detection_result_list := detection_result_list w;
     detection_count := detection_count w;
     servo_level := servo_level w; led_level := led_level w;
     duty_cycle := duty_cycle w; driven := driven w; stdout := l |}.

(** ** The peripherals *)

(** [GPIO.output(pin, value)]: only pins 18 and 15 are configured. *)
Definition GPIO_output (pin : Z) (value : bool) : Prog unit :=
  modify (fun w =>
    if pin =? servo_pin then set_servo_level value w
    else if pin =? led_pin then set_led_level value w
    else w).

(** The duty cycle [angle / 18 + 2] is a Python float; it is kept exactly,
    as a whole number of eighteenths of a percent. *)
Definition duty_of_angle (angle : Z) : Z := angle + 2 * 18.
Definition angle_of_duty (duty : Z) : Z := duty - 2 * 18.

(** [pwm.ChangeDutyCycle(duty)] *)
Definition ChangeDutyCycle (duty : Z) : Prog unit :=
  modify (set_duty_cycle duty).

(** [sleep(0.5)]: the servo settles at the position the current duty cycle
    encodes; that position is appended to [driven]. *)
Definition sleep : Prog unit :=
  modify (fun w => set_driven (driven w ++ [angle_of_duty (duty_cycle w)]) w).

(** [print(msg)] *)
Definition print (msg : string) : Prog unit :=
  modify (fun w => set_stdout (stdout w ++ [msg]) w).

(** ** The functions of the module *)

(** [set_angle], lines 59-66. *)
Definition set_angle (angle : Z) : Prog unit :=
  let duty := duty_of_angle angle in
  GPIO_output servo_pin true ;;
  ChangeDutyCycle duty ;;
  sleep ;;
  GPIO_output servo_pin false ;;
  ChangeDutyCycle 0.

(** [move_servo_continuous], lines 68-74. *)
Definition move_servo_continuous : Prog unit :=
  a <- gets servo_angle ;;
  set_angle a ;;
  modify (fun w => set_servo_angle (servo_angle w + 10 * servo_direction w) w) ;;
  a' <- gets servo_angle ;;
  if (a' >=? 180) || (a' <=? 0)
  then modify (fun w => set_servo_direction (servo_direction w * -1) w)
  else ret tt.

Definition tolerance : Z := 20.

(** [move_servo_to_center], lines 76-93. *)
Definition move_servo_to_center
  (bbox_center_x bbox_center_y frame_center_x frame_center_y : Z) : Prog unit :=
  (if Z.abs (bbox_center_x - frame_center_x) >? tolerance then
     if bbox_center_x <? frame_center_x then
       a <- gets servo_angle ;; set_angle (a - 5) ;; print "Moving to left"
     else
       a <- gets servo_angle ;; set_angle (a + 5) ;; print "Moving to right"
   else ret tt) ;;
  (if Z.abs (bbox_center_y - frame_center_y) >? tolerance then
     if bbox_center_y <? frame_center_y then
       a <- gets servo_angle ;; set_angle (a + 5) ;; print "Moving up"
     else
       a <- gets servo_angle ;; set_angle (a - 5) ;; print "Moving down"
   else ret tt).

(** [save_result], lines 103-107: the detector's callback. *)
Definition save_result (result : ObjectDetectorResult) : Prog unit :=
  modify (fun w =>
    set_detection_result_list (detection_result_list w ++ [result]) w) ;;
  if Z.of_nat (length (detections result)) >=? 2
  then modify (fun w => set_detection_count (detection_count w + 1) w)
  else ret tt.

(** The centre of a bounding box, lines 133-135. *)
Definition bbox_center_x (d : Detection) : Z :=
  let bbox := bounding_box d in
  BoundingBox.origin_x bbox + BoundingBox.width bbox / 2.

Definition bbox_center_y (d : Detection) : Z :=
  let bbox := bounding_box d in
  BoundingBox.origin_y bbox + BoundingBox.height bbox / 2.

(** One iteration of the [while True] loop of [run], lines 125-144. *)
Definition run_cycle (width height : Z) : Prog unit :=
  let frame_center_x := width / 2 in
  let frame_center_y := height / 2 in
  n <- gets detection_count ;;
  if n <? 2 then
    move_servo_continuous
  else
    l <- gets detection_result_list ;;
    match l with
    | result0 :: _ =>
        for_each (detections result0) (fun detection =>
          move_servo_to_center (bbox_center_x detection)
            (bbox_center_y detection) frame_center_x frame_center_y) ;;
        GPIO_output led_pin true ;;
        modify (set_detection_result_list []) ;;
        print "Centered object"
    | [] =>
        GPIO_output led_pin false
    end.

(** ** Runs

    The callback fires on the detector's thread at times the loop does not
    control.  A run is a sequence of events, each either one delivery of a
    result to [save_result] or one iteration of the loop; a delivery is
    taken to fall between two iterations, not in the middle of one. *)

Inductive event : Type :=
| Callback (result : ObjectDetectorResult)
| Iteration.

Definition step (width height : Z) (e : event) : Prog unit :=
  match e with
  | Callback result => save_result result
  | Iteration => run_cycle width height
  end.

Definition run (width height : Z) (evs : list event) : Prog unit :=
  for_each evs (step width height).

(** The two states of the loop, read off the test of line 126. *)
Inductive Mode : Type := Scanning | Tracking.

Definition mode (w : World) : Mode :=
  if detection_count w <? 2 then Scanning else Tracking.

(** The mailbox, in the words of the specification: [publish] is the
    callback, [take] is what a tracking iteration does with the list
    (test of line 130, element 0 of line 131, [clear] of line 141). *)
Definition publish : ObjectDetectorResult -> Prog unit := save_result.

Definition take : Prog (option ObjectDetectorResult) :=
  l <- gets detection_result_list ;;
  match l with
  | result0 :: _ => modify (set_detection_result_list []) ;; ret (Some result0)
  | [] => ret None
  end.

(** [n] invocations of the scan behaviour in a row. *)
Fixpoint scan (n : nat) : Prog unit :=
  match n with
  | O => ret tt
  | S n' => move_servo_continuous ;; scan n'
  end.

(** ** Notions used in the statements

    What the calls leave behind, the pieces of [move_servo_to_center] and of
    the loop body, the invariants of the sweep and of tracking, and the
    concrete batches and states the scenarios are run on. *)

(** What one call of [set_angle] leaves behind: pin 18 low, duty 0, one more
    position in [driven]; nothing else moves. *)
Definition after_set_angle (angle : Z) (w : World) : World :=
  {| servo_angle := servo_angle w; servo_direction := servo_direction w;
     detection_result_list := detection_result_list w;
     detection_count := detection_count w;
     servo_level := false; led_level := led_level w;
     duty_cycle := 0; driven := driven w ++ [angle]; stdout := stdout w |}.

(** A correction is a [set_angle] followed by a [print]. *)
Definition correct_by (delta : Z) (msg : string) : Prog unit :=
  a <- gets servo_angle ;; set_angle (a + delta) ;; print msg.

(** The two halves of [move_servo_to_center]. *)
Definition horizontal (bx fx : Z) : Prog unit :=
  if Z.abs (bx - fx) >? tolerance then
    if bx <? fx then correct_by (-5) "Moving to left"
    else correct_by 5 "Moving to right"
  else ret tt.

Definition vertical (bY fy : Z) : Prog unit :=
  if Z.abs (bY - fy) >? tolerance then
    if bY <? fy then correct_by 5 "Moving up"
    else correct_by (-5) "Moving down"
  else ret tt.

(** The body of the [for] loop of line 132. *)
Definition center_all (width height : Z) (ds : list Detection) : Prog unit :=
  for_each ds (fun detection =>
    move_servo_to_center (bbox_center_x detection) (bbox_center_y detection)
      (width / 2) (height / 2)).

(** [w'] differs from [w] by servo commands only, each of them five degrees
    off the stored angle of [w]; the stored angle itself, the direction, the
    list, the counter and the LED are those of [w]. *)
Definition actuates (w w' : World) : Prop :=
  servo_angle w' = servo_angle w /\
  servo_direction w' = servo_direction w /\
  detection_result_list w' = detection_result_list w /\
  detection_count w' = detection_count w /\
  led_level w' = led_level w /\
  exists cmds,
    driven w' = driven w ++ cmds /\
    Forall (fun c => c = servo_angle w - 5 \/ c = servo_angle w + 5) cmds.

(** A batch counts towards the lock when it holds two detections or more. *)
Definition qualifies (result : ObjectDetectorResult) : bool :=
  Z.of_nat (length (detections result)) >=? 2.

Definition bump (e : event) : Z :=
  match e with
  | Callback result => if qualifies result then 1 else 0
  | Iteration => 0
  end.

Fixpoint bumps (evs : list event) : Z :=
  match evs with
  | [] => 0
  | e :: evs' => bump e + bumps evs'
  end.

(** Once the counter is at two the stored angle and direction are frozen,
    and every command is five degrees off the frozen angle. *)
Definition frozen (w w' : World) : Prop :=
  servo_angle w' = servo_angle w /\
  servo_direction w' = servo_direction w /\
  exists cmds,
    driven w' = driven w ++ cmds /\
    Forall (fun c => c = servo_angle w - 5 \/ c = servo_angle w + 5) cmds.

(** The stored angle is a multiple of ten between 0 and 180 and, at either
    end, the direction points back inside. *)
Definition sweep_inv (w : World) : Prop :=
  exists k, 0 <= k <= 18 /\ servo_angle w = 10 * k /\
    (servo_direction w = 1 \/ servo_direction w = -1) /\
    (k = 0 -> servo_direction w = 1) /\
    (k = 18 -> servo_direction w = -1).

Definition in_range (a : Z) : Prop := 0 <= a <= 180.

Definition in_rangeb (a : Z) : bool := (0 <=? a) && (a <=? 180).

(** Closed goals about concrete runs are settled by evaluation. *)
Ltac evaluate := vm_compute; first [reflexivity | discriminate | lia].

(** A 40 x 40 box centred on [(x, y)]. *)
Definition box_at (x y : Z) : Detection :=
  {| bounding_box :=
       {| BoundingBox.origin_x := x - 20; BoundingBox.origin_y := y - 20;
          BoundingBox.width := 40; BoundingBox.height := 40 |} |}.

(** Two objects, both in the middle of a 640 x 480 frame. *)
Definition two_objects : ObjectDetectorResult :=
  {| detections := [box_at 320 240; box_at 330 235] |}.

(** One object, left of the middle. *)
Definition one_object_left : ObjectDetectorResult :=
  {| detections := [box_at 200 240] |}.

(** A result with no detection in it. *)
Definition no_object : ObjectDetectorResult := {| detections := [] |}.

(** Two batches of two objects, one loop iteration after each: the first
    iteration still scans, the second is the first one in tracking mode and
    consumes the first batch. *)
Definition latched : World :=
  exec (run 640 480
          [Callback two_objects; Iteration; Callback two_objects; Iteration])
       initial_world.

(** What C3 expects of an iteration from [w] to [w']: one command, above
    the stored angle, and the LED on. *)
Definition one_increasing_correction (w w' : World) : Prop :=
  exists a, driven w' = driven w ++ [a] /\ servo_angle w < a /\
    led_level w' = true.

(** The state in which the sweep would start with angle [a] and direction
    [d]. *)
Definition sweep_from (a d : Z) : World :=
  set_servo_direction d (set_servo_angle a initial_world).

(** The starts allowed by [sweep_inv], as a test, and whether a start sees a
    command outside [0, 180] within twenty invocations. *)
Definition sweep_startb (a d : Z) : bool :=
  (a mod 10 =? 0) && negb ((a =? 0) && (d =? -1))
  && negb ((a =? 180) && (d =? 1)).

Definition leaves_range (a d : Z) : bool :=
  negb (forallb in_rangeb (driven (exec (scan 20) (sweep_from a d)))).

(** The number of batches with two detections or more among [rs]. *)
Definition qualifying (rs : list ObjectDetectorResult) : Z :=
  Z.of_nat (length (filter qualifies rs)).

(** [publish] of each batch of [rs], in order. *)
Definition publish_all (rs : list ObjectDetectorResult) : Prog unit :=
  for_each rs publish.

(** ** Notions used in the further properties *)

(** The corrections one call of [move_servo_to_center] makes, as offsets
    from the stored angle and in the order they are made. *)
Definition deltas (bx bY fx fy : Z) : list Z :=
  (if Z.abs (bx - fx) >? tolerance
   then [if bx <? fx then -5 else 5] else [])
  ++ (if Z.abs (bY - fy) >? tolerance
      then [if bY <? fy then 5 else -5] else []).

(** The corrections of the [for] loop of line 132 over a whole batch. *)
Definition batch_deltas (width height : Z) (ds : list Detection) : list Z :=
  flat_map (fun d => deltas (bbox_center_x d) (bbox_center_y d)
                       (width / 2) (height / 2)) ds.

(** The triangle wave of period 36 between 0 and 180, and its slope. *)
Definition triangle (n : Z) : Z :=
  let m := n mod 36 in if m <=? 18 then 10 * m else 10 * (36 - m).

Definition triangle_direction (n : Z) : Z :=
  let m := n mod 36 in if m <? 18 then 1 else -1.

(** The loop iterations of a run, and the results delivered in it. *)
Fixpoint iterations (evs : list event) : nat :=
  match evs with
  | [] => O
  | Callback _ :: evs' => iterations evs'
  | Iteration :: evs' => S (iterations evs')
  end.

Fixpoint callbacks (evs : list event) : list ObjectDetectorResult :=
  match evs with
  | [] => []
  | Callback result :: evs' => result :: callbacks evs'
  | Iteration :: evs' => callbacks evs'
  end.

(** No pulse is being sent: pin 18 is low and the duty cycle is 0. *)
Definition at_rest (w : World) : Prop :=
  servo_level w = false /\ duty_cycle w = 0.

(** Whether 36 invocations from angle [a], direction [d], lead back to
    [a] and [d]; asked of the starts of [sweep_inv] only. *)
Definition period_check (a d : Z) : bool :=
  negb (sweep_startb a d)
  || ((servo_angle (exec (scan 36) (sweep_from a d)) =? a)
      && (servo_direction (exec (scan 36) (sweep_from a d)) =? d)).

(** Whether the [n]-th state of the sweep from the initial state is the
    one of the triangle wave. *)
Definition triangle_check (n : nat) : bool :=
  (servo_angle (exec (scan n) initial_world) =? triangle (Z.of_nat n))
  && (servo_direction (exec (scan n) initial_world)
      =? triangle_direction (Z.of_nat n)).

(** One object right of the middle. *)
Definition one_object_right : ObjectDetectorResult :=
  {| detections := [box_at 500 240] |}.

(** * Basic facts about the embedding *)

Lemma exec_bind {A B} (c : Prog A) (k : A -> Prog B) (w : World) :
  exec (bind c k) w = exec (k (fst (c w))) (exec c w).
Proof. unfold exec, bind. destruct (c w); reflexivity. Qed.

Lemma exec_ret {A} (a : A) (w : World) : exec (ret a) w = w.
Proof. reflexivity. Qed.

Lemma exec_modify (f : World -> World) (w : World) : exec (modify f) w = f w.
Proof. reflexivity. Qed.

Lemma set_angle_exec (angle : Z) (w : World) :
  exec (set_angle angle) w = after_set_angle angle w.
Proof.
  unfold set_angle, after_set_angle, exec, bind, GPIO_output, ChangeDutyCycle,
    sleep, modify, duty_of_angle, angle_of_duty. cbn.
  unfold set_duty_cycle, set_servo_level, set_driven. cbn.
  replace (angle + 36 - 36) with angle by lia. reflexivity.
Qed.

Lemma print_exec (msg : string) (w : World) :
  exec (print msg) w = set_stdout (stdout w ++ [msg]) w.
Proof. reflexivity. Qed.

Lemma correct_by_exec (delta : Z) (msg : string) (w : World) :
  exec (correct_by delta msg) w =
  set_stdout (stdout w ++ [msg]) (after_set_angle (servo_angle w + delta) w).
Proof.
  unfold correct_by. rewrite exec_bind. cbn [gets fst].
  rewrite exec_bind, set_angle_exec. reflexivity.
Qed.

Lemma move_servo_to_center_split (bx bY fx fy : Z) (w : World) :
  exec (move_servo_to_center bx bY fx fy) w =
  exec (vertical bY fy) (exec (horizontal bx fx) w).
Proof.
  unfold move_servo_to_center, horizontal, vertical, correct_by.
  rewrite exec_bind.
  destruct (Z.abs (bx - fx) >? tolerance), (bx <? fx),
    (Z.abs (bY - fy) >? tolerance), (bY <? fy); reflexivity.
Qed.

Lemma GPIO_output_led (value : bool) (w : World) :
  exec (GPIO_output led_pin value) w = set_led_level value w.
Proof. reflexivity. Qed.

Lemma move_servo_continuous_exec (w : World) :
  exec move_servo_continuous w =
  let a' := servo_angle w + 10 * servo_direction w in
  set_servo_direction
    (if (a' >=? 180) || (a' <=? 0)
     then servo_direction w * -1 else servo_direction w)
    (set_servo_angle a' (after_set_angle (servo_angle w) w)).
Proof.
  unfold move_servo_continuous.
  rewrite exec_bind. cbn [gets fst].
  rewrite exec_bind, set_angle_exec, exec_bind, exec_modify, exec_bind.
  cbn [gets fst exec snd after_set_angle set_servo_angle servo_angle
       servo_direction].
  destruct ((servo_angle w + 10 * servo_direction w >=? 180)
            || (servo_angle w + 10 * servo_direction w <=? 0)); reflexivity.
Qed.

(** [save_result] appends to the list and counts the batch when it holds
    two detections or more. *)
Lemma save_result_exec (result : ObjectDetectorResult) (w : World) :
  exec (save_result result) w =
  set_detection_count
    (if Z.of_nat (length (detections result)) >=? 2
     then detection_count w + 1 else detection_count w)
    (set_detection_result_list (detection_result_list w ++ [result]) w).
Proof.
  unfold save_result. rewrite exec_bind, exec_modify.
  destruct (Z.of_nat (length (detections result)) >=? 2); reflexivity.
Qed.

Lemma center_all_cons (width height : Z) (d : Detection) (ds : list Detection)
  (w : World) :
  exec (center_all width height (d :: ds)) w =
  exec (center_all width height ds)
    (exec (move_servo_to_center (bbox_center_x d) (bbox_center_y d)
             (width / 2) (height / 2)) w).
Proof. unfold center_all. cbn [for_each]. apply exec_bind. Qed.

(** The scanning branch of an iteration. *)
Lemma run_cycle_scanning (width height : Z) (w : World) :
  detection_count w < 2 ->
  exec (run_cycle width height) w = exec move_servo_continuous w.
Proof.
  intros H. unfold run_cycle. rewrite exec_bind. cbn [gets fst exec snd].
  destruct (Z.ltb_spec (detection_count w) 2); [reflexivity | lia].
Qed.

(** The tracking branch of an iteration, with a batch in the list. *)
Lemma run_cycle_tracking_some (width height : Z) (w : World)
  (result0 : ObjectDetectorResult) (rest : list ObjectDetectorResult) :
  2 <= detection_count w ->
  detection_result_list w = result0 :: rest ->
  exec (run_cycle width height) w =
  exec (print "Centered object")
    (set_detection_result_list []
       (set_led_level true
          (exec (center_all width height (detections result0)) w))).
Proof.
  intros H L. unfold run_cycle. rewrite exec_bind. cbn [gets fst exec snd].
  destruct (Z.ltb_spec (detection_count w) 2); [lia |].
  rewrite exec_bind. cbn [gets fst exec snd]. rewrite L.
  fold (center_all width height (detections result0)).
  rewrite exec_bind, exec_bind, GPIO_output_led, exec_bind, exec_modify.
  reflexivity.
Qed.

(** The tracking branch of an iteration, with the list empty. *)
Lemma run_cycle_tracking_none (width height : Z) (w : World) :
  2 <= detection_count w ->
  detection_result_list w = [] ->
  exec (run_cycle width height) w = set_led_level false w.
Proof.
  intros H L. unfold run_cycle. rewrite exec_bind. cbn [gets fst exec snd].
  destruct (Z.ltb_spec (detection_count w) 2); [lia |].
  rewrite exec_bind. cbn [gets fst exec snd]. rewrite L.
  apply GPIO_output_led.
Qed.

Lemma run_cons (width height : Z) (e : event) (evs : list event) (w : World) :
  exec (run width height (e :: evs)) w =
  exec (run width height evs) (exec (step width height e) w).
Proof. unfold run. cbn [for_each]. apply exec_bind. Qed.

Lemma run_app (width height : Z) (evs1 evs2 : list event) (w : World) :
  exec (run width height (evs1 ++ evs2)) w =
  exec (run width height evs2) (exec (run width height evs1) w).
Proof.
  revert w. induction evs1 as [| e evs1 IH]; intros w.
  - reflexivity.
  - cbn [app]. rewrite !run_cons. apply IH.
Qed.

(** * What the tracking behaviour may change *)

Lemma actuates_refl (w : World) : actuates w w.
Proof.
  repeat split. exists []. split; [now rewrite app_nil_r | constructor].
Qed.

Lemma actuates_trans (w1 w2 w3 : World) :
  actuates w1 w2 -> actuates w2 w3 -> actuates w1 w3.
Proof.
  intros (A1 & D1 & L1 & C1 & I1 & c1 & E1 & F1)
         (A2 & D2 & L2 & C2 & I2 & c2 & E2 & F2).
  repeat split; try congruence.
  exists (c1 ++ c2). split.
  - rewrite E2, E1, app_assoc. reflexivity.
  - apply Forall_app. split; [exact F1 |]. rewrite <- A1. exact F2.
Qed.

Lemma actuates_correct_by (delta : Z) (msg : string) (w : World) :
  delta = 5 \/ delta = -5 -> actuates w (exec (correct_by delta msg) w).
Proof.
  intros Hd. rewrite correct_by_exec. repeat split.
  exists [servo_angle w + delta]. split; [reflexivity |].
  constructor; [lia | constructor].
Qed.

Lemma actuates_horizontal (bx fx : Z) (w : World) :
  actuates w (exec (horizontal bx fx) w).
Proof.
  unfold horizontal.
  destruct (Z.abs (bx - fx) >? tolerance); [| apply actuates_refl].
  destruct (bx <? fx); apply actuates_correct_by; lia.
Qed.

Lemma actuates_vertical (bY fy : Z) (w : World) :
  actuates w (exec (vertical bY fy) w).
Proof.
  unfold vertical.
  destruct (Z.abs (bY - fy) >? tolerance); [| apply actuates_refl].
  destruct (bY <? fy); apply actuates_correct_by; lia.
Qed.

Lemma actuates_move_servo_to_center (bx bY fx fy : Z) (w : World) :
  actuates w (exec (move_servo_to_center bx bY fx fy) w).
Proof.
  rewrite move_servo_to_center_split.
  eapply actuates_trans; [apply actuates_horizontal | apply actuates_vertical].
Qed.

Lemma actuates_center_all (width height : Z) (ds : list Detection) (w : World) :
  actuates w (exec (center_all width height ds) w).
Proof.
  revert w. induction ds as [| d ds IH]; intros w.
  - apply actuates_refl.
  - rewrite center_all_cons.
    eapply actuates_trans; [apply actuates_move_servo_to_center | apply IH].
Qed.

(** * Invariants of whole runs *)

Lemma bumps_nonneg (evs : list event) : 0 <= bumps evs.
Proof.
  induction evs as [| e evs IH]; cbn [bumps]; [lia |].
  destruct e as [r |]; cbn [bump]; [destruct (qualifies r) |]; lia.
Qed.

Lemma run_cycle_count (width height : Z) (w : World) :
  detection_count (exec (run_cycle width height) w) = detection_count w.
Proof.
  destruct (Z.lt_ge_cases (detection_count w) 2) as [H | H].
  - rewrite run_cycle_scanning, move_servo_continuous_exec by exact H.
    reflexivity.
  - destruct (detection_result_list w) as [| r rest] eqn:L.
    + rewrite run_cycle_tracking_none by assumption. reflexivity.
    + rewrite (run_cycle_tracking_some _ _ _ r rest) by assumption.
      rewrite print_exec. cbn.
      apply (actuates_center_all width height (detections r) w).
Qed.

Lemma step_count (width height : Z) (e : event) (w : World) :
  detection_count (exec (step width height e) w) = detection_count w + bump e.
Proof.
  destruct e as [r |]; cbn [step bump].
  - rewrite save_result_exec. unfold qualifies. cbn.
    destruct (Z.of_nat (length (detections r)) >=? 2); lia.
  - rewrite run_cycle_count. lia.
Qed.

Lemma run_count (width height : Z) (evs : list event) (w : World) :
  detection_count (exec (run width height evs) w)
  = detection_count w + bumps evs.
Proof.
  revert w. induction evs as [| e evs IH]; intros w.
  - cbn. lia.
  - rewrite run_cons, IH, step_count. cbn [bumps]. lia.
Qed.

Lemma actuates_frozen (w w' : World) : actuates w w' -> frozen w w'.
Proof. intros (A & D & _ & _ & _ & E). repeat split; assumption. Qed.

Lemma frozen_trans (w1 w2 w3 : World) :
  frozen w1 w2 -> frozen w2 w3 -> frozen w1 w3.
Proof.
  intros (A1 & D1 & c1 & E1 & F1) (A2 & D2 & c2 & E2 & F2).
  repeat split; try congruence.
  exists (c1 ++ c2). split.
  - rewrite E2, E1, app_assoc. reflexivity.
  - apply Forall_app. split; [exact F1 |]. rewrite <- A1. exact F2.
Qed.

Lemma frozen_step (width height : Z) (e : event) (w : World) :
  2 <= detection_count w -> frozen w (exec (step width height e) w).
Proof.
  intros H. destruct e as [r |]; cbn [step].
  - rewrite save_result_exec. repeat split.
    exists []. split; [cbn; now rewrite app_nil_r | constructor].
  - destruct (detection_result_list w) as [| r rest] eqn:L.
    + rewrite run_cycle_tracking_none by assumption. repeat split.
      exists []. split; [cbn; now rewrite app_nil_r | constructor].
    + rewrite (run_cycle_tracking_some _ _ _ r rest) by assumption.
      rewrite print_exec.
      destruct (actuates_center_all width height (detections r) w)
        as (A & D & _ & _ & _ & E).
      repeat split; assumption.
Qed.

Lemma frozen_run (width height : Z) (evs : list event) (w : World) :
  2 <= detection_count w -> frozen w (exec (run width height evs) w).
Proof.
  revert w. induction evs as [| e evs IH]; intros w H.
  - apply actuates_frozen, actuates_refl.
  - rewrite run_cons. eapply frozen_trans; [apply frozen_step; exact H |].
    apply IH. rewrite step_count.
    destruct e as [r |]; cbn [bump]; [destruct (qualifies r) |]; lia.
Qed.

(** The LED is still off whenever the loop is scanning. *)
Lemma led_off_while_scanning (width height : Z) (evs : list event) :
  let w := exec (run width height evs) initial_world in
  detection_count w < 2 -> led_level w = false.
Proof.
  cbv zeta.
  assert (G : forall w,
    (detection_count w < 2 -> led_level w = false) ->
    detection_count (exec (run width height evs) w) < 2 ->
    led_level (exec (run width height evs) w) = false).
  { induction evs as [| e evs IH]; intros w Hw.
    - exact Hw.
    - rewrite run_cons. apply IH. intros Hc.
      rewrite step_count in Hc. destruct e as [r |]; cbn [step bump] in *.
      + rewrite save_result_exec. cbn. apply Hw.
        destruct (qualifies r); lia.
      + rewrite run_cycle_scanning, move_servo_continuous_exec by lia.
        cbn. apply Hw. lia. }
  apply G. reflexivity.
Qed.

(** * The sweep *)

Lemma sweep_inv_initial : sweep_inv initial_world.
Proof. exists 0. cbn. repeat split; try lia. Qed.

Lemma sweep_inv_in_range (w : World) : sweep_inv w -> in_range (servo_angle w).
Proof. intros (k & Hk & Ha & _). unfold in_range. lia. Qed.

Lemma sweep_inv_step (w : World) :
  sweep_inv w -> sweep_inv (exec move_servo_continuous w).
Proof.
  intros (k & Hk & Ha & Hd & H0 & H18).
  rewrite move_servo_continuous_exec. cbv zeta.
  unfold sweep_inv. cbn [servo_angle servo_direction set_servo_direction
                         set_servo_angle after_set_angle].
  exists (k + servo_direction w).
  destruct ((servo_angle w + 10 * servo_direction w >=? 180)
            || (servo_angle w + 10 * servo_direction w <=? 0)) eqn:E.
  - apply orb_true_iff in E. rewrite Z.geb_le, Z.leb_le in E. lia.
  - apply orb_false_iff in E. destruct E as [E1 E2].
    rewrite Z.geb_leb in E1. apply Z.leb_gt in E1. apply Z.leb_gt in E2. lia.
Qed.

Lemma sweep_inv_scan (n : nat) (w : World) :
  sweep_inv w -> sweep_inv (exec (scan n) w).
Proof.
  revert w. induction n as [| n IH]; intros w H.
  - exact H.
  - cbn [scan]. rewrite exec_bind. apply IH, sweep_inv_step, H.
Qed.

Lemma move_servo_continuous_driven (w : World) :
  driven (exec move_servo_continuous w) = driven w ++ [servo_angle w].
Proof. rewrite move_servo_continuous_exec. reflexivity. Qed.

Lemma scan_driven (n : nat) (w : World) :
  sweep_inv w ->
  exists cmds, driven (exec (scan n) w) = driven w ++ cmds /\
    length cmds = n /\ Forall in_range cmds.
Proof.
  revert w. induction n as [| n IH]; intros w H.
  - exists []. cbn. rewrite app_nil_r. repeat split. constructor.
  - cbn [scan]. rewrite exec_bind.
    destruct (IH _ (sweep_inv_step w H)) as (cmds & E & Ln & F).
    exists (servo_angle w :: cmds).
    rewrite E, move_servo_continuous_driven, <- app_assoc.
    repeat split; [cbn; congruence |].
    constructor; [apply sweep_inv_in_range, H | exact F].
Qed.

(** Under the invariant the direction is negated exactly when the new angle
    is one of the two bounds, and is kept exactly when it lies between. *)
Lemma sweep_inv_flip (w : World) :
  sweep_inv w ->
  let w' := exec move_servo_continuous w in
  (servo_direction w' = - servo_direction w <->
     servo_angle w' = 0 \/ servo_angle w' = 180) /\
  (servo_direction w' = servo_direction w <-> 0 < servo_angle w' < 180).
Proof.
  intros (k & Hk & Ha & Hd & H0 & H18). cbv zeta.
  rewrite move_servo_continuous_exec. cbv zeta.
  cbn [servo_angle servo_direction set_servo_direction
       set_servo_angle after_set_angle].
  destruct ((servo_angle w + 10 * servo_direction w >=? 180)
            || (servo_angle w + 10 * servo_direction w <=? 0)) eqn:E.
  - apply orb_true_iff in E. rewrite Z.geb_le, Z.leb_le in E. lia.
  - apply orb_false_iff in E. destruct E as [E1 E2].
    rewrite Z.geb_leb in E1. apply Z.leb_gt in E1. apply Z.leb_gt in E2. lia.
Qed.

Lemma sweep_inv_ext (w w' : World) :
  servo_angle w' = servo_angle w -> servo_direction w' = servo_direction w ->
  sweep_inv w -> sweep_inv w'.
Proof.
  intros A D (k & H). exists k. rewrite A, D. exact H.
Qed.

(** Every state the program reaches satisfies the sweep invariant. *)
Lemma sweep_inv_run (width height : Z) (evs : list event) (w : World) :
  sweep_inv w -> sweep_inv (exec (run width height evs) w).
Proof.
  revert w. induction evs as [| e evs IH]; intros w H.
  - exact H.
  - rewrite run_cons. apply IH. destruct e as [r |]; cbn [step].
    + rewrite save_result_exec. exact H.
    + destruct (Z.lt_ge_cases (detection_count w) 2) as [C | C].
      * rewrite run_cycle_scanning by exact C. apply sweep_inv_step, H.
      * destruct (frozen_step width height Iteration w C) as (A & D & _).
        exact (sweep_inv_ext _ _ A D H).
Qed.

Lemma in_rangeb_spec (a : Z) : in_rangeb a = true <-> in_range a.
Proof.
  unfold in_rangeb, in_range. rewrite andb_true_iff, !Z.leb_le. tauto.
Qed.

Lemma sweep_startb_inv (a d : Z) :
  in_range a -> d = 1 \/ d = -1 -> sweep_startb a d = true ->
  sweep_inv (sweep_from a d).
Proof.
  unfold in_range, sweep_startb. intros Ha Hd H.
  apply andb_true_iff in H. destruct H as [H H180].
  apply andb_true_iff in H. destruct H as [Hm H0].
  apply Z.eqb_eq in Hm. apply negb_true_iff, andb_false_iff in H0, H180.
  rewrite !Z.eqb_neq in H0, H180.
  pose proof (Z.div_mod a 10 ltac:(lia)) as E. rewrite Hm in E.
  exists (a / 10). unfold sweep_from.
  cbn [servo_angle servo_direction set_servo_direction set_servo_angle].
  lia.
Qed.

(** Every start in [0, 180] that [sweep_inv] excludes sees a command outside
    [0, 180] within twenty invocations. *)
Lemma sweep_exhaustive :
  forallb (fun n => let a := Z.of_nat n in
             (sweep_startb a 1 || leaves_range a 1)
             && (sweep_startb a (-1) || leaves_range a (-1)))
          (seq 0 181) = true.
Proof. vm_compute. reflexivity. Qed.

(** The starts of [sweep_inv] are the only ones in [0, 180] from which the
    sweep stays within [0, 180]. *)
Lemma sweep_bounds_only_from_inv (a d : Z) :
  in_range a -> d = 1 \/ d = -1 ->
  (forall n, Forall in_range (driven (exec (scan n) (sweep_from a d)))) ->
  sweep_inv (sweep_from a d).
Proof.
  intros Ha Hd Hall. apply sweep_startb_inv; [exact Ha | exact Hd |].
  pose proof sweep_exhaustive as X. rewrite forallb_forall in X.
  specialize (X (Z.to_nat a)).
  assert (I : In (Z.to_nat a) (seq 0 181)).
  { apply in_seq. unfold in_range in Ha. lia. }
  specialize (X I). cbv zeta in X.
  rewrite Z2Nat.id in X by (unfold in_range in Ha; lia).
  assert (L : leaves_range a d = false).
  { unfold leaves_range. apply negb_false_iff, forallb_forall.
    intros c Hc. apply in_rangeb_spec.
    exact (proj1 (Forall_forall _ _) (Hall 20%nat) c Hc). }
  apply andb_true_iff in X. destruct X as [X1 X2].
  destruct Hd as [-> | ->].
  - rewrite L, orb_false_r in X1. exact X1.
  - rewrite L, orb_false_r in X2. exact X2.
Qed.

(** In tracking mode the LED after an iteration tells whether the list held
    a result, whatever the result holds. *)
Lemma indicator_follows_list (width height : Z) (w : World) :
  2 <= detection_count w ->
  led_level (exec (run_cycle width height) w)
  = match detection_result_list w with [] => false | _ :: _ => true end.
Proof.
  intros C. destruct (detection_result_list w) as [| r rest] eqn:L.
  - rewrite run_cycle_tracking_none by assumption. reflexivity.
  - rewrite (run_cycle_tracking_some _ _ _ r rest) by assumption.
    reflexivity.
Qed.

(** * The mailbox *)

Lemma take_cons (w : World) (result0 : ObjectDetectorResult)
  (rest : list ObjectDetectorResult) :
  detection_result_list w = result0 :: rest ->
  take w = (Some result0, set_detection_result_list [] w).
Proof. intros L. unfold take, bind, gets. rewrite L. reflexivity. Qed.

Lemma take_nil (w : World) :
  detection_result_list w = [] -> take w = (None, w).
Proof. intros L. unfold take, bind, gets. rewrite L. reflexivity. Qed.

Lemma publish_list (result : ObjectDetectorResult) (w : World) :
  detection_result_list (exec (publish result) w)
  = detection_result_list w ++ [result].
Proof. unfold publish. rewrite save_result_exec. reflexivity. Qed.

(** The corrections do not look at the list, so clearing it before or after
    them is the same. *)
Lemma center_all_clear (width height : Z) (ds : list Detection)
  (l : list ObjectDetectorResult) (w : World) :
  exec (center_all width height ds) (set_detection_result_list l w)
  = set_detection_result_list l (exec (center_all width height ds) w).
Proof.
  revert w. induction ds as [| d ds IH]; intros w.
  - reflexivity.
  - rewrite !center_all_cons, <- IH. f_equal.
    rewrite !move_servo_to_center_split. unfold horizontal, vertical.
    destruct (Z.abs (bbox_center_x d - width / 2) >? tolerance),
      (bbox_center_x d <? width / 2),
      (Z.abs (bbox_center_y d - height / 2) >? tolerance),
      (bbox_center_y d <? height / 2);
      rewrite ?correct_by_exec, ?exec_ret; reflexivity.
Qed.

(** A tracking iteration is: [take], then act on what was taken. *)
Lemma run_cycle_take (width height : Z) (w : World) :
  2 <= detection_count w ->
  exec (run_cycle width height) w =
  match take w with
  | (Some result0, w') =>
      exec (center_all width height (detections result0) ;;
            GPIO_output led_pin true ;; print "Centered object") w'
  | (None, w') => exec (GPIO_output led_pin false) w'
  end.
Proof.
  intros H. destruct (detection_result_list w) as [| r rest] eqn:L.
  - rewrite take_nil, run_cycle_tracking_none by assumption. reflexivity.
  - rewrite (take_cons _ r rest), (run_cycle_tracking_some _ _ _ r rest)
      by assumption.
    rewrite exec_bind, exec_bind, center_all_clear, GPIO_output_led.
    reflexivity.
Qed.

(** * The claims *)

(** ** C1: mailbox overwrite *)

(** C1, as stated, fails: in tracking mode, with the list empty, the batch
    [one_object_left] is published and then the batch [one_object_right],
    no iteration in between.  The [take] of the next iteration hands out
    the first of the two, not the second: the iteration commands 5 (stored
    angle 10, target on the left), never 15, and empties the list. *)
Lemma mailbox_overwrite_counterexample :
  let w := exec (publish one_object_right)
             (exec (publish one_object_left) latched) in
  mode latched = Tracking /\ detection_result_list latched = [] /\
  mode w = Tracking /\
  fst (take w) = Some one_object_left /\
  fst (take w) <> Some one_object_right /\
  driven (exec (run_cycle 640 480) w) = driven w ++ [5] /\
  detection_result_list (exec (run_cycle 640 480) w) = [].
Proof. cbv zeta. repeat (split; [evaluate |]). evaluate. Qed.

(** C1 (amended): in tracking mode, when batch [B1] and then batch [B2] are
    published to an empty list with no [take] in between, the next [take]
    returns [B1] only: the iteration that does it acts on the detections of
    [B1], [B2] is dropped with the [clear], the list is empty afterwards and
    a further [take] returns nothing. *)
Theorem mailbox_keeps_first (width height : Z)
  (B1 B2 : ObjectDetectorResult) (w : World) :
  2 <= detection_count w ->
  detection_result_list w = [] ->
  let w2 := exec (publish B2) (exec (publish B1) w) in
  mode w2 = Tracking /\
  fst (take w2) = Some B1 /\
  detection_result_list (snd (take w2)) = [] /\
  fst (take (snd (take w2))) = None /\
  exec (run_cycle width height) w2
    = exec (center_all width height (detections B1) ;;
            GPIO_output led_pin true ;; print "Centered object")
           (snd (take w2)) /\
  detection_result_list (exec (run_cycle width height) w2) = [].
Proof.
  intros C L. cbv zeta.
  set (w2 := exec (publish B2) (exec (publish B1) w)).
  assert (L2 : detection_result_list w2 = [B1; B2]).
  { unfold w2. rewrite !publish_list, L. reflexivity. }
  assert (C2 : 2 <= detection_count w2).
  { unfold w2, publish. rewrite !save_result_exec. cbn.
    destruct (Z.of_nat (length (detections B1)) >=? 2),
      (Z.of_nat (length (detections B2)) >=? 2); lia. }
  split.
  { unfold mode. destruct (Z.ltb_spec (detection_count w2) 2);
      [lia | reflexivity]. }
  pose proof (run_cycle_take width height w2 C2) as T.
  rewrite (take_cons _ B1 [B2] L2) in *. cbn [fst snd].
  split; [reflexivity |]. split; [reflexivity |].
  split; [rewrite take_nil; reflexivity |].
  split; [exact T |].
  rewrite (run_cycle_tracking_some _ _ _ B1 [B2] C2 L2). reflexivity.
Qed.

Lemma mailbox_keeps_first_witness :
  let w2 := exec (publish one_object_right)
              (exec (publish one_object_left) latched) in
  mode w2 = Tracking /\
  fst (take w2) = Some one_object_left /\
  detection_result_list (snd (take w2)) = [] /\
  fst (take (snd (take w2))) = None /\
  exec (run_cycle 640 480) w2
    = exec (center_all 640 480 (detections one_object_left) ;;
            GPIO_output led_pin true ;; print "Centered object")
           (snd (take w2)) /\
  detection_result_list (exec (run_cycle 640 480) w2) = [].
Proof.
  apply (mailbox_keeps_first 640 480 one_object_left one_object_right
           latched); evaluate.
Defined.

(** ** C2: [set_angle] and the stored angle *)



(** ** C3: the end-to-end scenario *)

(** C3, as stated, fails: after the lock has latched, the batch with one
    detection centred at (200, 240) makes the iteration command 5 while the
    stored angle is 10. *)
Lemma end_to_end_counterexample :
  let w := exec (publish one_object_left) latched in
  mode w = Tracking /\ detection_result_list w = [one_object_left] /\
  driven (exec (run_cycle 640 480) w) = driven w ++ [5] /\
  servo_angle w = 10 /\
  ~ one_increasing_correction w (exec (run_cycle 640 480) w).
Proof.
  cbv zeta. do 4 (split; [evaluate |]).
  intros (a & E & Hlt & _). vm_compute in E.
  injection E as E. subst a. vm_compute in Hlt. discriminate.
Qed.

(** C3 (amended): in tracking mode, an iteration that finds at the head of
    the list a batch with one detection centred at (200, 240), the frame
    being 640 x 480, makes exactly one call of [set_angle], with the stored
    angle minus five (the target is left of the centre), switches the LED
    on and empties the list; the stored angle is not changed. *)
Theorem end_to_end_correction (w : World) (result0 : ObjectDetectorResult)
  (rest : list ObjectDetectorResult) (d : Detection) :
  2 <= detection_count w ->
  detection_result_list w = result0 :: rest ->
  detections result0 = [d] ->
  bbox_center_x d = 200 -> bbox_center_y d = 240 ->
  let w' := exec (run_cycle 640 480) w in
  driven w' = driven w ++ [servo_angle w - 5] /\
  led_level w' = true /\
  detection_result_list w' = [] /\
  servo_angle w' = servo_angle w /\
  stdout w' = stdout w ++ ["Moving to left"; "Centered object"].
Proof.
  intros C L D X Y. cbv zeta.
  rewrite (run_cycle_tracking_some _ _ _ result0 rest C L), D.
  rewrite center_all_cons, X, Y, move_servo_to_center_split.
  change (exec (horizontal 200 (640 / 2)) w)
    with (exec (correct_by (-5) "Moving to left") w).
  rewrite correct_by_exec, print_exec. cbn.
  rewrite <- app_assoc. repeat split.
Qed.

Lemma end_to_end_correction_witness :
  let w := exec (publish one_object_left) latched in
  let w' := exec (run_cycle 640 480) w in
  driven w' = driven w ++ [servo_angle w - 5] /\
  led_level w' = true /\
  detection_result_list w' = [] /\
  servo_angle w' = servo_angle w /\
  stdout w' = stdout w ++ ["Moving to left"; "Centered object"].
Proof.
  apply (end_to_end_correction (exec (publish one_object_left) latched)
           one_object_left [] (box_at 200 240)).
  - evaluate.
  - evaluate.
  - evaluate.
  - evaluate.
  - evaluate.
Defined.

(** When no iteration runs between the three deliveries, the iteration that
    follows acts on the first batch and the one-detection batch is
    dropped: no command is issued for it. *)
Lemma end_to_end_batches_queued :
  let w := exec (run 640 480 [Callback two_objects; Callback two_objects;
                              Callback one_object_left]) initial_world in
  mode w = Tracking /\
  fst (take w) = Some two_objects /\
  driven (exec (run_cycle 640 480) w) = driven w /\
  detection_result_list (exec (run_cycle 640 480) w) = [].
Proof. cbv zeta. repeat (split; [evaluate |]). evaluate. Qed.

(** ** C4: the scan / track transition is sticky *)

(** C4: at every point of every run the loop scans exactly while the counter
    is below two and tracks exactly from two on; a scanning iteration is one
    invocation of the scan behaviour, a tracking iteration leaves the sweep
    state alone; and whatever happens after a point where the loop tracks,
    it still tracks. *)
Theorem scan_track_sticky (width height : Z) (evs1 evs2 : list event) :
  let w1 := exec (run width height evs1) initial_world in
  let w2 := exec (run width height (evs1 ++ evs2)) initial_world in
  (mode w1 = Scanning <-> detection_count w1 < 2) /\
  (mode w1 = Tracking <-> 2 <= detection_count w1) /\
  (mode w1 = Scanning ->
     exec (run_cycle width height) w1 = exec move_servo_continuous w1) /\
  (mode w1 = Tracking ->
     servo_angle (exec (run_cycle width height) w1) = servo_angle w1 /\
     servo_direction (exec (run_cycle width height) w1) = servo_direction w1) /\
  (mode w1 = Tracking -> mode w2 = Tracking).
Proof.
  cbv zeta. rewrite run_app.
  generalize (exec (run width height evs1) initial_world). intros w1.
  assert (M : forall w, (mode w = Scanning <-> detection_count w < 2) /\
                        (mode w = Tracking <-> 2 <= detection_count w)).
  { intros w. unfold mode.
    destruct (Z.ltb_spec (detection_count w) 2); split; split;
      intros; try reflexivity; try discriminate; lia. }
  split; [apply M |]. split; [apply M |]. split; [| split].
  - intros S. apply run_cycle_scanning, M, S.
  - intros T. apply M in T.
    destruct (frozen_step width height Iteration w1 T) as (A & D & _).
    split; [exact A | exact D].
  - intros T. apply M. apply M in T. rewrite run_count.
    pose proof (bumps_nonneg evs2). lia.
Qed.

Lemma scan_track_sticky_witness :
  let evs1 :=
    [Callback two_objects; Iteration; Callback two_objects; Iteration] in
  let evs2 := [Callback no_object; Iteration; Iteration] in
  mode (exec (run 640 480 evs1) initial_world) = Tracking /\
  mode (exec (run 640 480 (evs1 ++ evs2)) initial_world) = Tracking.
Proof.
  intros evs1 evs2.
  destruct (scan_track_sticky 640 480 evs1 evs2) as (_ & _ & _ & _ & H).
  assert (T : mode (exec (run 640 480 evs1) initial_world) = Tracking)
    by evaluate.
  split; [exact T | exact (H T)].
Defined.

(** ** C5: the bounds of the sweep *)

(** C5, as stated, fails: started at angle 0 with direction -1, the second
    invocation commands -10; started at angle 175 with direction +1, the
    second invocation commands 185. *)
Lemma scan_sweep_counterexample :
  in_range 0 /\
  driven (exec (scan 2) (sweep_from 0 (-1))) = [0; -10] /\
  ~ Forall in_range (driven (exec (scan 2) (sweep_from 0 (-1)))) /\
  in_range 175 /\
  driven (exec (scan 2) (sweep_from 175 1)) = [175; 185] /\
  ~ Forall in_range (driven (exec (scan 2) (sweep_from 175 1))).
Proof.
  unfold in_range.
  split; [lia |]. split; [evaluate |]. split; [| split; [lia |]].
  2: split; [evaluate |].
  - intros F. vm_compute in F. inversion F as [| ? ? _ F']. subst.
    inversion F' as [| ? ? [B _] _]. apply B. reflexivity.
  - intros F. vm_compute in F. inversion F as [| ? ? _ F']. subst.
    inversion F' as [| ? ? [_ B] _]. apply B. reflexivity.
Qed.

(** C5 (amended): started from the state the program starts in (angle 0,
    direction +1) or, more generally, from a multiple of ten in [0, 180]
    with the direction pointing inwards at 0 and at 180, [n] invocations of
    the scan behaviour issue [n] commands, all within [0, 180]; the next
    invocation commands the stored angle, which is within [0, 180], and it
    negates the direction exactly when the new angle is 0 or 180 and keeps
    it exactly when the new angle lies strictly between. *)
Theorem scan_sweep_bounds (w : World) (n : nat) :
  sweep_inv w ->
  let wn := exec (scan n) w in
  let wn' := exec move_servo_continuous wn in
  (exists cmds, driven wn = driven w ++ cmds /\ length cmds = n /\
                Forall in_range cmds) /\
  driven wn' = driven wn ++ [servo_angle wn] /\
  in_range (servo_angle wn) /\
  (servo_direction wn' = - servo_direction wn <->
     servo_angle wn' = 0 \/ servo_angle wn' = 180) /\
  (servo_direction wn' = servo_direction wn <-> 0 < servo_angle wn' < 180).
Proof.
  intros H. cbv zeta.
  pose proof (sweep_inv_scan n w H) as Hn.
  split; [apply scan_driven, H |].
  split; [apply move_servo_continuous_driven |].
  split; [apply sweep_inv_in_range, Hn |].
  apply (sweep_inv_flip _ Hn).
Qed.

Lemma scan_sweep_bounds_witness :
  driven (exec (scan 19) initial_world)
    = [0; 10; 20; 30; 40; 50; 60; 70; 80; 90; 100; 110; 120; 130; 140; 150;
       160; 170; 180] /\
  servo_direction (exec (scan 18) initial_world) = -1 /\
  in_range (servo_angle (exec (scan 40) initial_world)).
Proof.
  split; [evaluate |]. split; [evaluate |].
  apply (scan_sweep_bounds initial_world 40).
  exists 0. cbn. lia.
Defined.

(** ** C6: the lock streak never goes down *)

Lemma publish_all_count (rs : list ObjectDetectorResult) (w : World) :
  detection_count (exec (publish_all rs) w) = detection_count w + qualifying rs.
Proof.
  unfold qualifying. revert w. induction rs as [| r rs IH]; intros w.
  - cbn. lia.
  - unfold publish_all in *. cbn [for_each filter]. rewrite exec_bind, IH.
    change (exec (publish r) w) with (exec (step 0 0 (Callback r)) w).
    rewrite step_count. cbn [bump].
    destruct (qualifies r); cbn [length]; lia.
Qed.

(** C6: one [publish] adds one to the counter when the batch holds two
    detections or more and leaves it as it is otherwise; over any sequence
    of batches the counter ends at its start value plus the number of such
    batches, it never decreases from one batch to the next, and loop
    iterations interleaved with the deliveries do not touch it. *)
Theorem lock_streak_monotone (width height : Z)
  (rs1 rs2 : list ObjectDetectorResult) (r : ObjectDetectorResult)
  (evs : list event) (w : World) :
  detection_count (exec (publish r) w)
    = (if 2 <=? Z.of_nat (length (detections r))
       then detection_count w + 1 else detection_count w) /\
  detection_count (exec (publish_all rs1) w)
    = detection_count w + qualifying rs1 /\
  detection_count (exec (publish_all rs1) w)
    <= detection_count (exec (publish_all (rs1 ++ rs2)) w) /\
  detection_count (exec (run_cycle width height) w) = detection_count w /\
  detection_count (exec (run width height evs) w)
    = detection_count w + bumps evs.
Proof.
  split; [| split; [| split; [| split]]].
  - unfold publish. rewrite save_result_exec, Z.geb_leb. reflexivity.
  - apply publish_all_count.
  - rewrite !publish_all_count. unfold qualifying.
    rewrite filter_app, length_app. lia.
  - apply run_cycle_count.
  - apply run_count.
Qed.

(** ** C7: the indicator *)

(** C7 fails on the code: in tracking mode, with a result that holds no
    detection at the head of the list, the iteration issues no command and
    yet switches the LED on, although line 140 is commented "Turn on LED
    when detection is made". *)
Theorem indicator_on_without_detection :
  let w := exec (publish no_object) latched in
  mode w = Tracking /\
  fst (take w) = Some no_object /\ detections no_object = [] /\
  led_level w = true /\
  driven (exec (run_cycle 640 480) w) = driven w /\
  led_level (exec (run_cycle 640 480) w) = true /\
  led_level
    (exec (run 640 480 [Iteration; Callback no_object; Iteration]) latched)
    = true.
Proof. cbv zeta. repeat (split; [evaluate |]). evaluate. Qed.

(** ** C8: the deadband *)

(** C8: the tolerance is 20; with the frame centre at (320, 240) a detection
    centred at (325, 240) changes nothing at all, and one centred at
    (345, 240) makes exactly one call of [set_angle], with the stored angle
    plus five, from the horizontal branch ("Moving to right"). *)
Theorem deadband_correctness (w : World) :
  tolerance = 20 /\
  exec (move_servo_to_center 325 240 320 240) w = w /\
  exec (move_servo_to_center 345 240 320 240) w
    = set_stdout (stdout w ++ ["Moving to right"])
        (after_set_angle (servo_angle w + 5) w) /\
  driven (exec (move_servo_to_center 345 240 320 240) w)
    = driven w ++ [servo_angle w + 5].
Proof.
  split; [reflexivity |]. split; [reflexivity |].
  assert (E : exec (move_servo_to_center 345 240 320 240) w
              = set_stdout (stdout w ++ ["Moving to right"])
                  (after_set_angle (servo_angle w + 5) w)).
  { rewrite move_servo_to_center_split.
    change (exec (horizontal 345 320) w)
      with (exec (correct_by 5 "Moving to right") w).
    rewrite correct_by_exec. reflexivity. }
  split; [exact E | rewrite E; reflexivity].
Qed.

(** ** C9: an iteration with nothing to take *)

(** C9: in tracking mode, with the list empty, an iteration changes the LED
    level to off and nothing else: no command is issued, the stored angle
    and direction, the duty cycle and the list are as before. *)
Theorem empty_mailbox_cycle (width height : Z) (w : World) :
  2 <= detection_count w ->
  detection_result_list w = [] ->
  let w' := exec (run_cycle width height) w in
  fst (take w) = None /\
  w' = set_led_level false w /\
  led_level w' = false /\
  driven w' = driven w /\
  servo_angle w' = servo_angle w /\
  servo_direction w' = servo_direction w /\
  duty_cycle w' = duty_cycle w /\
  servo_level w' = servo_level w.
Proof.
  intros C L. cbv zeta.
  rewrite run_cycle_tracking_none, take_nil by assumption.
  repeat split.
Qed.

Lemma empty_mailbox_cycle_witness :
  let w' := exec (run_cycle 640 480) latched in
  fst (take latched) = None /\
  w' = set_led_level false latched /\
  led_level w' = false /\
  driven w' = driven latched /\
  servo_angle w' = servo_angle latched /\
  servo_direction w' = servo_direction latched /\
  duty_cycle w' = duty_cycle latched /\
  servo_level w' = servo_level latched.
Proof.
  apply (empty_mailbox_cycle 640 480 latched); evaluate.
Defined.

(** ** C10: the stored angle is frozen while tracking *)

(** C10: [set_angle] and [move_servo_to_center] do not write the stored
    angle; from any state with the counter at two or more, after any
    sequence of deliveries and iterations the loop is still tracking, the
    stored angle and the direction are the ones it started with, and every
    command issued on the way is that angle minus five or plus five. *)
Theorem tracking_angle_frozen (width height : Z) (evs : list event)
  (w : World) :
  2 <= detection_count w ->
  let w' := exec (run width height evs) w in
  (forall a, servo_angle (exec (set_angle a) w) = servo_angle w) /\
  (forall bx bY fx fy,
     servo_angle (exec (move_servo_to_center bx bY fx fy) w) = servo_angle w) /\
  mode w' = Tracking /\
  servo_angle w' = servo_angle w /\
  servo_direction w' = servo_direction w /\
  exists cmds,
    driven w' = driven w ++ cmds /\
    Forall (fun c => c = servo_angle w - 5 \/ c = servo_angle w + 5) cmds.
Proof.
  intros C. cbv zeta.
  split; [intros a; rewrite set_angle_exec; reflexivity |].
  split; [intros bx bY fx fy;
          apply (actuates_move_servo_to_center bx bY fx fy w) |].
  split.
  - unfold mode. rewrite run_count. pose proof (bumps_nonneg evs).
    destruct (Z.ltb_spec (detection_count w + bumps evs) 2);
      [lia | reflexivity].
  - apply (frozen_run width height evs w C).
Qed.

Lemma tracking_angle_frozen_witness :
  let evs := [Callback one_object_left; Iteration;
              Callback one_object_left; Iteration] in
  servo_angle (exec (run 640 480 evs) latched) = servo_angle latched /\
  driven (exec (run 640 480 evs) latched) = driven latched ++ [5; 5].
Proof.
  intros evs.
  assert (C : 2 <= detection_count latched) by evaluate.
  destruct (tracking_angle_frozen 640 480 evs latched C)
    as (_ & _ & _ & A & _).
  split; [exact A | evaluate].
Defined.

(** * Further properties of the code *)

(** ** The commands of [move_servo_to_center] *)

Lemma move_servo_to_center_driven (bx bY fx fy : Z) (w : World) :
  driven (exec (move_servo_to_center bx bY fx fy) w)
  = driven w ++ map (fun delta => servo_angle w + delta) (deltas bx bY fx fy).
Proof.
  rewrite move_servo_to_center_split. unfold horizontal, vertical, deltas.
  destruct (Z.abs (bx - fx) >? tolerance), (bx <? fx),
    (Z.abs (bY - fy) >? tolerance), (bY <? fy);
    rewrite ?correct_by_exec, ?exec_ret; cbn;
    rewrite <- ?app_assoc, ?app_nil_r; reflexivity.
Qed.

Lemma deltas_length (bx bY fx fy : Z) :
  (length (deltas bx bY fx fy) <= 2)%nat /\
  Forall (fun delta => delta = 5 \/ delta = -5) (deltas bx bY fx fy).
Proof.
  unfold deltas.
  destruct (Z.abs (bx - fx) >? tolerance), (bx <? fx),
    (Z.abs (bY - fy) >? tolerance), (bY <? fy); cbn;
    (split; [lia | repeat constructor; lia]).
Qed.

Lemma gtb_tolerance (x : Z) : (x >? tolerance) = false <-> x <= 20.
Proof.
  unfold tolerance. rewrite Z.gtb_ltb, Z.ltb_ge. reflexivity.
Qed.

(** X1: a call of [move_servo_to_center] leaves the whole state as it was
    exactly when the box centre is within 20 pixels of the frame centre on
    both axes, 20 included, and it issues no command exactly then; in every
    other case it commands the servo, first to the stored angle minus five
    or plus five. *)
Theorem deadband_iff (bx bY fx fy : Z) (w : World) :
  let w' := exec (move_servo_to_center bx bY fx fy) w in
  (w' = w <-> Z.abs (bx - fx) <= 20 /\ Z.abs (bY - fy) <= 20) /\
  (driven w' = driven w <-> Z.abs (bx - fx) <= 20 /\ Z.abs (bY - fy) <= 20) /\
  ((Z.abs (bx - fx) <= 20 /\ Z.abs (bY - fy) <= 20) \/
   exists c rest,
     driven w' = driven w ++ c :: rest /\
     (c = servo_angle w - 5 \/ c = servo_angle w + 5)).
Proof.
  cbv zeta.
  assert (D : driven (exec (move_servo_to_center bx bY fx fy) w) = driven w
              -> Z.abs (bx - fx) <= 20 /\ Z.abs (bY - fy) <= 20).
  { intros E. rewrite move_servo_to_center_driven in E.
    rewrite <- (app_nil_r (driven w)) in E at 2.
    apply app_inv_head, map_eq_nil in E. unfold deltas in E.
    destruct (Z.abs (bx - fx) >? tolerance) eqn:HX;
      [destruct (Z.abs (bY - fy) >? tolerance); discriminate E |].
    destruct (Z.abs (bY - fy) >? tolerance) eqn:HY; [discriminate E |].
    split; apply gtb_tolerance; assumption. }
  assert (U : Z.abs (bx - fx) <= 20 /\ Z.abs (bY - fy) <= 20 ->
              exec (move_servo_to_center bx bY fx fy) w = w).
  { intros [HX HY]. apply gtb_tolerance in HX, HY.
    rewrite move_servo_to_center_split. unfold horizontal, vertical.
    rewrite HX, HY. reflexivity. }
  split; [| split].
  - split; [intros E; apply D; rewrite E; reflexivity | exact U].
  - split; [exact D | intros P; rewrite (U P); reflexivity].
  - rewrite move_servo_to_center_driven. unfold deltas.
    destruct (Z.abs (bx - fx) >? tolerance) eqn:HX.
    + right. cbn [app map].
      eexists _, _. split; [reflexivity |]. destruct (bx <? fx); lia.
    + destruct (Z.abs (bY - fy) >? tolerance) eqn:HY.
      * right. cbn [app map].
        eexists _, _. split; [reflexivity |]. destruct (bY <? fy); lia.
      * left. split; apply gtb_tolerance; assumption.
Qed.

(** X2: when the box centre is more than 20 pixels above or below the frame
    centre, the last command of the call is the vertical one, the stored
    angle plus five (above) or minus five (below), whatever the horizontal
    error is; a target left of and above the centre gets minus five and
    then plus five. *)
Theorem vertical_correction_last (bx bY fx fy : Z) (w : World) :
  20 < Z.abs (bY - fy) ->
  last (driven (exec (move_servo_to_center bx bY fx fy) w)) 0
  = servo_angle w + (if bY <? fy then 5 else -5) /\
  (20 < Z.abs (bx - fx) -> bx < fx -> bY < fy ->
   driven (exec (move_servo_to_center bx bY fx fy) w)
   = driven w ++ [servo_angle w - 5; servo_angle w + 5]).
Proof.
  intros HY. rewrite move_servo_to_center_driven. unfold deltas.
  assert (EY : (Z.abs (bY - fy) >? tolerance) = true).
  { unfold tolerance. rewrite Z.gtb_ltb. apply Z.ltb_lt. exact HY. }
  rewrite EY. split.
  - rewrite map_app, app_assoc. cbn [map]. apply last_last.
  - intros HX L A.
    assert (EX : (Z.abs (bx - fx) >? tolerance) = true).
    { unfold tolerance. rewrite Z.gtb_ltb. apply Z.ltb_lt. exact HX. }
    rewrite EX. apply Z.ltb_lt in L, A. rewrite L, A. reflexivity.
Qed.

Lemma vertical_correction_last_witness :
  last (driven (exec (move_servo_to_center 100 100 320 240) latched)) 0
  = servo_angle latched + 5.
Proof.
  apply (vertical_correction_last 100 100 320 240 latched). evaluate.
Defined.

(** ** The commands of a tracking iteration *)

Lemma center_all_driven (width height : Z) (ds : list Detection) (w : World) :
  driven (exec (center_all width height ds) w)
  = driven w
    ++ map (fun delta => servo_angle w + delta) (batch_deltas width height ds).
Proof.
  revert w. induction ds as [| d ds IH]; intros w.
  - cbn. now rewrite app_nil_r.
  - rewrite center_all_cons, IH, move_servo_to_center_driven.
    destruct (actuates_move_servo_to_center (bbox_center_x d)
                (bbox_center_y d) (width / 2) (height / 2) w) as (A & _).
    rewrite A. cbn [batch_deltas flat_map].
    rewrite map_app, app_assoc. reflexivity.
Qed.

Lemma batch_deltas_length (width height : Z) (ds : list Detection) :
  (length (batch_deltas width height ds) <= 2 * length ds)%nat.
Proof.
  induction ds as [| d ds IH]; cbn [batch_deltas flat_map length].
  - lia.
  - rewrite length_app.
    pose proof (proj1 (deltas_length (bbox_center_x d) (bbox_center_y d)
                         (width / 2) (height / 2))).
    fold (batch_deltas width height ds). lia.
Qed.

(** X3: a tracking iteration acts on the first result of the list only: its
    commands are the corrections of that result's detections, in order, each
    taken from the same stored angle, at most two per detection; the results
    behind the first one cause no command. *)
Theorem tracking_iteration_commands (width height : Z) (w : World)
  (result0 : ObjectDetectorResult) (rest : list ObjectDetectorResult) :
  2 <= detection_count w ->
  detection_result_list w = result0 :: rest ->
  let w' := exec (run_cycle width height) w in
  let ds := batch_deltas width height (detections result0) in
  driven w' = driven w ++ map (fun delta => servo_angle w + delta) ds /\
  (length ds <= 2 * length (detections result0))%nat /\
  w' = exec (run_cycle width height) (set_detection_result_list [result0] w).
Proof.
  intros C L. cbv zeta.
  rewrite (run_cycle_tracking_some _ _ _ result0 rest C L).
  split; [| split].
  - rewrite print_exec. cbn [driven set_stdout set_detection_result_list
                              set_led_level].
    apply center_all_driven.
  - apply batch_deltas_length.
  - rewrite (run_cycle_tracking_some _ _ (set_detection_result_list [result0] w)
               result0 []) by (try reflexivity; exact C).
    rewrite center_all_clear. reflexivity.
Qed.

Lemma tracking_iteration_commands_witness :
  let w := exec (run 640 480 [Callback one_object_left; Callback two_objects])
             latched in
  driven (exec (run_cycle 640 480) w) = driven w ++ [servo_angle w + -5].
Proof.
  intros w.
  assert (C : 2 <= detection_count w) by evaluate.
  assert (L : detection_result_list w = [one_object_left; two_objects])
    by evaluate.
  destruct (tracking_iteration_commands 640 480 w one_object_left
              [two_objects] C L) as (E & _).
  exact E.
Defined.

(** ** The servo is driven during [set_angle] only *)

Lemma at_rest_horizontal (bx fx : Z) (w : World) :
  at_rest w -> at_rest (exec (horizontal bx fx) w).
Proof.
  intros R. unfold horizontal.
  destruct (Z.abs (bx - fx) >? tolerance); [| exact R].
  destruct (bx <? fx); rewrite correct_by_exec; split; reflexivity.
Qed.

Lemma at_rest_vertical (bY fy : Z) (w : World) :
  at_rest w -> at_rest (exec (vertical bY fy) w).
Proof.
  intros R. unfold vertical.
  destruct (Z.abs (bY - fy) >? tolerance); [| exact R].
  destruct (bY <? fy); rewrite correct_by_exec; split; reflexivity.
Qed.

Lemma at_rest_center_all (width height : Z) (ds : list Detection) (w : World) :
  at_rest w -> at_rest (exec (center_all width height ds) w).
Proof.
  revert w. induction ds as [| d ds IH]; intros w R.
  - exact R.
  - rewrite center_all_cons, move_servo_to_center_split.
    apply IH, at_rest_vertical, at_rest_horizontal, R.
Qed.

Lemma at_rest_step (width height : Z) (e : event) (w : World) :
  at_rest w -> at_rest (exec (step width height e) w).
Proof.
  intros R. destruct e as [r |]; cbn [step].
  - rewrite save_result_exec. exact R.
  - destruct (Z.lt_ge_cases (detection_count w) 2) as [C | C].
    + rewrite run_cycle_scanning, move_servo_continuous_exec by exact C.
      split; reflexivity.
    + destruct (detection_result_list w) as [| r rest] eqn:L.
      * rewrite run_cycle_tracking_none by assumption. exact R.
      * rewrite (run_cycle_tracking_some _ _ _ r rest) by assumption.
        rewrite print_exec.
        exact (at_rest_center_all width height (detections r) w R).
Qed.

(** X4: pulses are sent to the servo during [set_angle] only: a call of
    [set_angle] ends with pin 18 low and the duty cycle at 0, and after any
    sequence of deliveries and iterations from the initial state pin 18 is
    low and the duty cycle is 0. *)
Theorem servo_at_rest_between_calls (width height : Z) (evs : list event)
  (angle : Z) (w : World) :
  at_rest (exec (set_angle angle) w) /\
  at_rest (exec (run width height evs) initial_world).
Proof.
  split; [rewrite set_angle_exec; split; reflexivity |].
  assert (G : forall v, at_rest v -> at_rest (exec (run width height evs) v)).
  { induction evs as [| e evs IH]; intros v R.
    - exact R.
    - rewrite run_cons. apply IH, at_rest_step, R. }
  apply G. split; reflexivity.
Qed.

(** ** The shape of the sweep *)

Lemma scan_add (n m : nat) (w : World) :
  exec (scan (n + m)) w = exec (scan m) (exec (scan n) w).
Proof.
  revert w. induction n as [| n IH]; intros w.
  - reflexivity.
  - cbn [Nat.add scan]. rewrite !exec_bind. apply IH.
Qed.

Lemma scan_succ (n : nat) (w : World) :
  exec (scan (S n)) w = exec move_servo_continuous (exec (scan n) w).
Proof.
  replace (S n) with (n + 1)%nat by lia. rewrite scan_add.
  cbn [scan]. rewrite exec_bind. reflexivity.
Qed.

(** The sweep looks at the stored angle and direction only. *)
Lemma scan_servo_state (n : nat) (w : World) :
  let v := exec (scan n) (sweep_from (servo_angle w) (servo_direction w)) in
  servo_angle (exec (scan n) w) = servo_angle v /\
  servo_direction (exec (scan n) w) = servo_direction v /\
  driven (exec (scan n) w) = driven w ++ driven v.
Proof.
  cbv zeta. revert w. induction n as [| n IH]; intros w.
  - cbn. rewrite app_nil_r. repeat split.
  - cbn [scan]. rewrite !exec_bind.
    destruct (IH (exec move_servo_continuous w)) as (A & D & E).
    destruct (IH (exec move_servo_continuous
                    (sweep_from (servo_angle w) (servo_direction w))))
      as (A' & D' & E').
    rewrite A, D, E, A', D', E'.
    rewrite !move_servo_continuous_exec. cbn.
    rewrite <- app_assoc. repeat split.
Qed.

Lemma sweep_inv_startb (w : World) :
  sweep_inv w ->
  in_range (servo_angle w) /\
  (servo_direction w = 1 \/ servo_direction w = -1) /\
  sweep_startb (servo_angle w) (servo_direction w) = true.
Proof.
  intros (k & Hk & Ha & Hd & H0 & H18).
  split; [unfold in_range; lia |]. split; [exact Hd |].
  unfold sweep_startb. rewrite !andb_true_iff, !negb_true_iff,
    !andb_false_iff, !Z.eqb_neq, Z.eqb_eq.
  repeat split.
  - rewrite Ha, Z.mul_comm. apply Z_mod_mult.
  - destruct Hd as [Hd | Hd]; [right; lia | left; lia].
  - destruct Hd as [Hd | Hd]; [left; lia | right; lia].
Qed.

Lemma period_exhaustive :
  forallb (fun n => period_check (Z.of_nat n) 1
                    && period_check (Z.of_nat n) (-1)) (seq 0 181) = true.
Proof. vm_compute. reflexivity. Qed.

Lemma sweep_one_period (w : World) :
  sweep_inv w ->
  servo_angle (exec (scan 36) w) = servo_angle w /\
  servo_direction (exec (scan 36) w) = servo_direction w.
Proof.
  intros H. destruct (sweep_inv_startb w H) as (R & Hd & B).
  destruct (scan_servo_state 36 w) as (A & D & _). rewrite A, D.
  pose proof period_exhaustive as X. rewrite forallb_forall in X.
  specialize (X (Z.to_nat (servo_angle w))).
  unfold in_range in R.
  assert (I : In (Z.to_nat (servo_angle w)) (seq 0 181))
    by (apply in_seq; lia).
  specialize (X I). rewrite Z2Nat.id in X by lia.
  apply andb_true_iff in X. destruct X as [X1 X2].
  unfold period_check in X1, X2.
  destruct Hd as [E | E]; rewrite E in *.
  - rewrite B in X1. cbn [negb orb] in X1.
    apply andb_true_iff in X1. rewrite !Z.eqb_eq in X1. exact X1.
  - rewrite B in X2. cbn [negb orb] in X2.
    apply andb_true_iff in X2. rewrite !Z.eqb_eq in X2. exact X2.
Qed.

(** X5: from the initial state, or from any multiple of ten in [0, 180] with
    the direction pointing inwards at the ends, the sweep has period 36:
    36 more invocations bring back the stored angle and the direction, and
    the command of invocation [n + 36] is the command of invocation [n]. *)
Theorem sweep_period (w : World) (n : nat) :
  sweep_inv w ->
  servo_angle (exec (scan (n + 36)) w) = servo_angle (exec (scan n) w) /\
  servo_direction (exec (scan (n + 36)) w)
    = servo_direction (exec (scan n) w) /\
  driven (exec (scan (S (n + 36))) w)
    = driven (exec (scan (n + 36)) w) ++ [servo_angle (exec (scan n) w)].
Proof.
  intros H. rewrite scan_add.
  destruct (sweep_one_period _ (sweep_inv_scan n w H)) as (A & D).
  split; [exact A |]. split; [exact D |].
  rewrite scan_succ, move_servo_continuous_driven, scan_add, A. reflexivity.
Qed.

Lemma sweep_period_witness :
  servo_angle (exec (scan (5 + 36)) initial_world)
  = servo_angle (exec (scan 5) initial_world).
Proof.
  apply (sweep_period initial_world 5). exists 0. cbn. lia.
Defined.

Lemma triangle_exhaustive : forallb triangle_check (seq 0 36) = true.
Proof. vm_compute. reflexivity. Qed.

Lemma triangle_state (n : nat) :
  servo_angle (exec (scan n) initial_world) = triangle (Z.of_nat n) /\
  servo_direction (exec (scan n) initial_world)
    = triangle_direction (Z.of_nat n).
Proof.
  induction n as [n IH] using lt_wf_ind.
  destruct (Nat.lt_ge_cases n 36) as [S | L].
  - pose proof triangle_exhaustive as X. rewrite forallb_forall in X.
    specialize (X n ltac:(apply in_seq; lia)). unfold triangle_check in X.
    apply andb_true_iff in X. rewrite !Z.eqb_eq in X. exact X.
  - assert (E : exec (scan n) initial_world
                = exec (scan 36) (exec (scan (n - 36)) initial_world)).
    { rewrite <- scan_add. replace (n - 36 + 36)%nat with n by lia.
      reflexivity. }
    destruct (sweep_one_period _
                (sweep_inv_scan (n - 36) initial_world sweep_inv_initial))
      as (A & D).
    rewrite E, A, D.
    destruct (IH (n - 36)%nat ltac:(lia)) as (A' & D'). rewrite A', D'.
    unfold triangle, triangle_direction.
    replace (Z.of_nat n) with (Z.of_nat (n - 36) + 1 * 36) by lia.
    rewrite Z.mod_add by lia. split; reflexivity.
Qed.

(** X6: from the initial state the sweep is the triangle wave 0, 10, ...,
    180, 170, ..., 10, 0, 10, ...: invocation [n] (counted from 0) commands
    [triangle n], where [triangle n] is ten times [n mod 36] on the way up
    (up to 18) and ten times [36 - n mod 36] on the way down; the commands
    are within [0, 180] and two commands in a row differ by exactly ten. *)
Theorem sweep_triangle_wave (n : nat) :
  driven (exec (scan n) initial_world)
    = map (fun i => triangle (Z.of_nat i)) (seq 0 n) /\
  servo_angle (exec (scan n) initial_world) = triangle (Z.of_nat n) /\
  servo_direction (exec (scan n) initial_world)
    = triangle_direction (Z.of_nat n) /\
  0 <= triangle (Z.of_nat n) <= 180 /\
  Z.abs (triangle (Z.of_nat (S n)) - triangle (Z.of_nat n)) = 10.
Proof.
  split; [| split; [apply triangle_state | split; [apply triangle_state |]]].
  - induction n as [| n IH].
    + reflexivity.
    + rewrite scan_succ, move_servo_continuous_driven, IH.
      rewrite (proj1 (triangle_state n)), seq_S, map_app. reflexivity.
  - assert (B : forall m, 0 <= triangle m <= 180).
    { intros m. unfold triangle.
      pose proof (Z.mod_pos_bound m 36 ltac:(lia)).
      destruct (Z.leb_spec (m mod 36) 18); lia. }
    split; [apply B |].
    rewrite <- !(proj1 (triangle_state _)), scan_succ.
    rewrite move_servo_continuous_exec. cbn.
    destruct (sweep_inv_scan n initial_world sweep_inv_initial)
      as (k & _ & _ & [E | E] & _); rewrite E; lia.
Qed.

(** ** Scanning runs *)

Lemma bump_nonneg (e : event) : 0 <= bump e.
Proof. destruct e as [r |]; cbn; [destruct (qualifies r) |]; lia. Qed.

(** X7: as long as fewer than two qualifying batches have been delivered,
    deliveries have no effect on the servo: the stored angle, the direction
    and the commands after a run are those of as many invocations of the
    scan behaviour as the run has iterations. *)
Theorem sweep_ignores_callbacks (width height : Z) (evs : list event)
  (w : World) :
  detection_count w + bumps evs < 2 ->
  let w' := exec (run width height evs) w in
  let v := exec (scan (iterations evs)) w in
  servo_angle w' = servo_angle v /\
  servo_direction w' = servo_direction v /\
  driven w' = driven v.
Proof.
  cbv zeta. revert w. induction evs as [| e evs IH]; intros w C.
  - repeat split.
  - cbn [bumps] in C. pose proof (bump_nonneg e). pose proof (bumps_nonneg evs).
    rewrite run_cons.
    destruct (IH (exec (step width height e) w)) as (A & D & E).
    { rewrite step_count. lia. }
    rewrite A, D, E. destruct e as [r |]; cbn [step iterations].
    + destruct (scan_servo_state (iterations evs) (exec (save_result r) w))
        as (A1 & D1 & E1).
      destruct (scan_servo_state (iterations evs) w) as (A2 & D2 & E2).
      rewrite A1, D1, E1, A2, D2, E2, save_result_exec. repeat split.
    + rewrite run_cycle_scanning by lia.
      cbn [scan]. rewrite exec_bind. repeat split.
Qed.

Lemma sweep_ignores_callbacks_witness :
  let evs := [Iteration; Callback two_objects; Iteration;
              Callback one_object_left; Callback no_object; Iteration] in
  driven (exec (run 640 480 evs) initial_world)
  = driven (exec (scan 3) initial_world).
Proof.
  intros evs.
  assert (C : detection_count initial_world + bumps evs < 2) by evaluate.
  destruct (sweep_ignores_callbacks 640 480 evs initial_world C)
    as (_ & _ & E).
  exact E.
Defined.

Lemma callbacks_nonempty (evs : list event) :
  0 < bumps evs -> exists r0 rest, callbacks evs = r0 :: rest.
Proof.
  induction evs as [| [r |] evs IH]; cbn [bumps bump callbacks]; intros H.
  - lia.
  - exists r, (callbacks evs). reflexivity.
  - apply IH. lia.
Qed.

Lemma scanning_list (width height : Z) (evs : list event) (w : World) :
  detection_count w + bumps evs < 2 ->
  detection_result_list (exec (run width height evs) w)
  = detection_result_list w ++ callbacks evs.
Proof.
  revert w. induction evs as [| e evs IH]; intros w C.
  - cbn. now rewrite app_nil_r.
  - cbn [bumps] in C. pose proof (bump_nonneg e). pose proof (bumps_nonneg evs).
    rewrite run_cons, IH by (rewrite step_count; lia).
    destruct e as [r |]; cbn [step callbacks].
    + rewrite save_result_exec. cbn. rewrite <- app_assoc. reflexivity.
    + rewrite run_cycle_scanning, move_servo_continuous_exec by lia.
      reflexivity.
Qed.

(** X8: while the loop scans nothing is taken from the list: after a run
    from the initial state with fewer than two qualifying batches, the list
    holds every result delivered so far, in order of delivery; and when
    the batch [r] then latches the lock, the first tracking iteration will
    take the oldest result ever delivered, not [r]. *)
Theorem scanning_keeps_every_result (width height : Z) (evs : list event)
  (r : ObjectDetectorResult) :
  bumps evs = 1 -> qualifies r = true ->
  let w := exec (run width height evs) initial_world in
  let w' := exec (run width height (evs ++ [Callback r])) initial_world in
  mode w = Scanning /\
  detection_result_list w = callbacks evs /\
  mode w' = Tracking /\
  detection_result_list w' = callbacks evs ++ [r] /\
  exists r0 rest, callbacks evs = r0 :: rest /\ fst (take w') = Some r0.
Proof.
  intros B Q. cbv zeta.
  assert (L : detection_result_list (exec (run width height evs) initial_world)
              = callbacks evs).
  { rewrite scanning_list by (cbn; lia). reflexivity. }
  assert (L' : detection_result_list
                 (exec (run width height (evs ++ [Callback r])) initial_world)
               = callbacks evs ++ [r]).
  { rewrite run_app, run_cons. cbn [run for_each step].
    rewrite exec_ret, save_result_exec. cbn. now rewrite L. }
  split; [| split; [exact L | split; [| split; [exact L' |]]]].
  - unfold mode. rewrite run_count, B. reflexivity.
  - unfold mode. rewrite run_count.
    assert (E : bumps (evs ++ [Callback r]) = 2).
    { clear L L'. induction evs as [| e evs IH]; cbn [app bumps bump] in *.
      - lia.
      - pose proof (bump_nonneg e). pose proof (bumps_nonneg evs).
        destruct (Z.eq_dec (bumps evs) 1) as [E1 | E1].
        + rewrite (IH E1). lia.
        + assert (E0 : bumps evs = 0) by lia.
          assert (G : forall l, bumps l = 0 ->
                        bumps (l ++ [Callback r]) = 1).
          { clear - Q. induction l as [| x l IHl]; cbn [app bumps bump].
            - rewrite Q. intros _. reflexivity.
            - intros Hx. pose proof (bump_nonneg x).
              pose proof (bumps_nonneg l). rewrite IHl by lia. lia. }
          rewrite (G _ E0). lia. }
    rewrite E. reflexivity.
  - destruct (callbacks_nonempty evs ltac:(lia)) as (r0 & rest & E).
    exists r0, rest. split; [exact E |].
    rewrite (take_cons _ r0 (rest ++ [r])); [reflexivity |].
    rewrite L', E. reflexivity.
Qed.

Lemma scanning_keeps_every_result_witness :
  let evs := [Callback one_object_left; Iteration; Callback two_objects;
              Callback no_object] in
  fst (take (exec (run 640 480 (evs ++ [Callback two_objects]))
               initial_world))
  = Some one_object_left.
Proof.
  intros evs.
  assert (B : bumps evs = 1) by evaluate.
  assert (Q : qualifies two_objects = true) by evaluate.
  destruct (scanning_keeps_every_result 640 480 evs two_objects B Q)
    as (_ & _ & _ & _ & r0 & rest & E & T).
  rewrite T. f_equal. injection E as E _. symmetry. exact E.
Defined.

(** ** Tracking runs *)

(** X9: a tracking iteration empties the list whatever it holds, one result
    or many, so no result is ever acted on twice: a second iteration with
    no delivery in between issues no command and only switches the LED
    off. *)
Theorem tracking_drains_list (width height : Z) (w : World) :
  2 <= detection_count w ->
  let w1 := exec (run_cycle width height) w in
  let w2 := exec (run_cycle width height) w1 in
  detection_result_list w1 = [] /\
  w2 = set_led_level false w1 /\
  driven w2 = driven w1.
Proof.
  intros C. cbv zeta.
  assert (L : detection_result_list (exec (run_cycle width height) w) = []).
  { destruct (detection_result_list w) as [| r rest] eqn:L.
    - rewrite run_cycle_tracking_none by assumption. exact L.
    - rewrite (run_cycle_tracking_some _ _ _ r rest) by assumption.
      reflexivity. }
  split; [exact L |].
  rewrite (run_cycle_tracking_none width height
             (exec (run_cycle width height) w))
    by (rewrite ?run_cycle_count; assumption).
  split; reflexivity.
Qed.

Lemma tracking_drains_list_witness :
  let w := exec (run 640 480 [Callback one_object_left; Callback two_objects])
             latched in
  detection_result_list (exec (run_cycle 640 480) w) = [].
Proof.
  intros w.
  apply (tracking_drains_list 640 480 w). evaluate.
Defined.

Lemma commands_step (width height : Z) (e : event) (w : World) :
  sweep_inv w ->
  Forall (fun c => -5 <= c <= 185) (driven w) ->
  Forall (fun c => -5 <= c <= 185) (driven (exec (step width height e) w)).
Proof.
  intros I F. pose proof (sweep_inv_in_range w I) as R. unfold in_range in R.
  destruct e as [r |]; cbn [step].
  - rewrite save_result_exec. exact F.
  - destruct (Z.lt_ge_cases (detection_count w) 2) as [C | C].
    + rewrite run_cycle_scanning, move_servo_continuous_driven by exact C.
      apply Forall_app. split; [exact F |]. constructor; [lia | constructor].
    + destruct (frozen_step width height Iteration w C)
        as (_ & _ & cmds & E & G).
      cbn [step] in E. rewrite E. apply Forall_app. split; [exact F |].
      eapply Forall_impl; [| exact G]. cbv beta. intros c Hc. lia.
Qed.

(** X10: [set_angle] is not clamped, but the loop never asks for much more
    than the range of the servo: every command of every run from the initial
    state lies within [-5, 185].  Both ends are reached: -5 when the lock
    latches with the stored angle at 0 and the target is on the left, 185
    when it latches at 180 and the target is on the right. *)
Theorem commands_within_reach (width height : Z) (evs : list event) :
  Forall (fun c => -5 <= c <= 185)
    (driven (exec (run width height evs) initial_world)) /\
  In (-5) (driven (exec (run 640 480
             [Callback one_object_left; Callback two_objects;
              Callback two_objects; Iteration]) initial_world)) /\
  In 185 (driven (exec (run 640 480
             (repeat Iteration 18
              ++ [Callback one_object_right; Callback two_objects;
                  Callback two_objects; Iteration])) initial_world)).
Proof.
  split.
  - assert (G : forall w, sweep_inv w ->
              Forall (fun c => -5 <= c <= 185) (driven w) ->
              Forall (fun c => -5 <= c <= 185)
                (driven (exec (run width height evs) w))).
    { induction evs as [| e evs IH]; intros w I F.
      - exact F.
      - rewrite run_cons. apply IH.
        + pose proof (sweep_inv_run width height [e] w I) as J.
          rewrite run_cons in J. exact J.
        + apply commands_step; assumption. }
    apply G; [apply sweep_inv_initial | constructor].
  - split; vm_compute; tauto.
Qed.

(** ** When the lock latches *)

Lemma bumps_qualifying (evs : list event) :
  bumps evs = qualifying (callbacks evs).
Proof.
  unfold qualifying.
  induction evs as [| [r |] evs IH]; cbn [bumps bump callbacks filter].
  - reflexivity.
  - destruct (qualifies r); cbn [length]; lia.
  - lia.
Qed.

(** X11: the loop tracks exactly when two batches with two detections or
    more have been delivered since the start, in a row or not and wherever
    the iterations fall; a batch with fewer detections in between does not
    reset the count. *)
Theorem latch_iff_two_qualifying (width height : Z) (evs : list event) :
  (mode (exec (run width height evs) initial_world) = Tracking
   <-> 2 <= qualifying (callbacks evs)) /\
  (mode (exec (run width height evs) initial_world) = Scanning
   <-> qualifying (callbacks evs) < 2).
Proof.
  unfold mode. rewrite run_count, bumps_qualifying.
  cbn [detection_count initial_world].
  destruct (Z.ltb_spec (0 + qualifying (callbacks evs)) 2); split; split;
    intros; try reflexivity; try discriminate; lia.
Qed.

(** ** The centre of a bounding box *)

(** X12: for a box of non-negative width and height the centre computed at
    lines 134-135 lies inside the box, at most half a pixel before its true
    middle on each axis (floor division). *)
Theorem bbox_center_inside (d : Detection) :
  0 <= BoundingBox.width (bounding_box d) ->
  0 <= BoundingBox.height (bounding_box d) ->
  let b := bounding_box d in
  BoundingBox.origin_x b <= bbox_center_x d
    <= BoundingBox.origin_x b + BoundingBox.width b /\
  BoundingBox.origin_y b <= bbox_center_y d
    <= BoundingBox.origin_y b + BoundingBox.height b /\
  0 <= 2 * BoundingBox.origin_x b + BoundingBox.width b - 2 * bbox_center_x d
    <= 1 /\
  0 <= 2 * BoundingBox.origin_y b + BoundingBox.height b - 2 * bbox_center_y d
    <= 1.
Proof.
  intros W H. cbv zeta. unfold bbox_center_x, bbox_center_y. cbv zeta.
  pose proof (Z.div_mod (BoundingBox.width (bounding_box d)) 2 ltac:(lia)).
  pose proof (Z.mod_pos_bound (BoundingBox.width (bounding_box d)) 2
                ltac:(lia)).
  pose proof (Z.div_mod (BoundingBox.height (bounding_box d)) 2 ltac:(lia)).
  pose proof (Z.mod_pos_bound (BoundingBox.height (bounding_box d)) 2
                ltac:(lia)).
  lia.
Qed.

Lemma bbox_center_inside_witness :
  let d := {| bounding_box := BoundingBox.mk 10 20 5 8 |} in
  10 <= bbox_center_x d <= 10 + 5.
Proof.
  intros d. apply (bbox_center_inside d); evaluate.
Defined.
